(** * StreamingChatbot: the streaming chat component as a state machine

    A shallow embedding of [StreamingChatbotComponent]
    (frontend/blog_app/src/components/StreamingChatbot.jsx): the React state
    [input], [messages], [loading], [isConnected], the four WebSocket
    callbacks installed by the mount effect and the form's [handleSubmit].

    Every callback is a function from the state before the callback to the
    state after it.  What the browser decides (the outcome of [JSON.parse],
    the numbers drawn by [Date.now() + Math.random()], the socket's
    [readyState]) is an argument of the callback that consumes it. *)

From Stdlib Require Import List NArith ZArith Bool Lia String Ascii.
From Stdlib Require Import Floats.SpecFloat.
Import ListNotations.

Set Implicit Arguments.
Set Warnings "-register-all".

(** ** The fragment of JavaScript the component relies on *)

Module Js.

(** A JavaScript string is its sequence of UTF-16 code units. *)
Definition JsString : Type := list N.

(** The code units of an ASCII literal of the source. *)
Definition lit (s : string) : JsString :=
  List.map N_of_ascii (list_ascii_of_string s).
Arguments lit s%_string.

Fixpoint str_eqb (a b : JsString) : bool :=
  match a, b with
  | [], [] => true
  | x :: a', y :: b' => N.eqb x y && str_eqb a' b'
  | _, _ => false
  end.

(** A Number is an IEEE 754 binary64 value. *)
Definition Number : Type := spec_float.
Definition number_add : Number -> Number -> Number := SFadd 53 1024.
Definition pos_zero : Number := S754_zero false.
Definition one : Number := S754_finite false 4503599627370496 (-52).

(** The values [JSON.parse] returns, and [undefined] for the properties an
    object does not have.  An object is the list of its own properties. *)
Inductive JsVal : Type :=
| JUndefined
| JNull
| JBool (b : bool)
| JNumber (x : Number)
| JString (s : JsString)
| JArray (xs : list JsVal)
| JObject (props : list (JsString * JsVal)).

(** Abrupt completion of an expression. *)
Inductive JsError : Type := SyntaxError | TypeError.

Inductive Completion (A : Type) : Type :=
| Normal (a : A)
| Throw (e : JsError).
Arguments Normal {A} a.
Arguments Throw {A} e.

Definition bind {A B} (c : Completion A) (k : A -> Completion B) : Completion B :=
  match c with
  | Normal a => k a
  | Throw e => Throw e
  end.

Notation "x <- c ;; k" := (bind c (fun x => k))
  (at level 61, c at next level, right associativity).

(** [try { body } catch (error) { handler }] *)
Definition try_catch {A} (body : Completion A) (handler : JsError -> Completion A)
  : Completion A :=
  match body with
  | Normal a => Normal a
  | Throw e => handler e
  end.

Fixpoint own_property (key : JsString) (props : list (JsString * JsVal)) : JsVal :=
  match props with
  | [] => JUndefined
  | (k, v) :: rest => if str_eqb k key then v else own_property key rest
  end.

(** [data.key], for the keys the component reads ([type], [text], [content]):
    none of them is a property of a prototype, so only an object can have
    one; reading a property of [null] or [undefined] throws a TypeError. *)
Definition get (data : JsVal) (key : JsString) : Completion JsVal :=
  match data with
  | JUndefined | JNull => Throw TypeError
  | JObject props => Normal (own_property key props)
  | _ => Normal JUndefined
  end.

(** [v === "s"] *)
Definition strict_eq_str (v : JsVal) (s : JsString) : bool :=
  match v with
  | JString t => str_eqb t s
  | _ => false
  end.

(** ToBoolean *)
Definition to_boolean (v : JsVal) : bool :=
  match v with
  | JUndefined | JNull => false
  | JBool b => b
  | JNumber (S754_zero _) | JNumber S754_nan => false
  | JNumber _ => true
  | JString [] => false
  | JString _ => true
  | JArray _ | JObject _ => true
  end.

(** [a || b] *)
Definition js_or (a b : JsVal) : JsVal := if to_boolean a then a else b.

(** *** String.prototype.trim *)

(** WhiteSpace and LineTerminator code points; all lie in the basic plane. *)
Definition is_white_space (c : N) : bool :=
  (N.eqb c 9 || N.eqb c 10 || N.eqb c 11 || N.eqb c 12 || N.eqb c 13
   || N.eqb c 32 || N.eqb c 160 || N.eqb c 5760
   || (N.leb 8192 c && N.leb c 8202)
   || N.eqb c 8232 || N.eqb c 8233 || N.eqb c 8239 || N.eqb c 8287
   || N.eqb c 12288 || N.eqb c 65279)%bool.

Fixpoint trim_start (s : JsString) : JsString :=
  match s with
  | [] => []
  | c :: rest => if is_white_space c then trim_start rest else s
  end.

Definition trim_end (s : JsString) : JsString := rev (trim_start (rev s)).

Definition trim (s : JsString) : JsString := trim_end (trim_start s).

(** [!s] for a string [s] *)
Definition str_not (s : JsString) : bool :=
  match s with
  | [] => true
  | _ => false
  end.

(** *** The [+] operator

    The result of [+] can be a string that contains the decimal rendering of
    a Number.  The component stores such strings but never inspects them, so
    the rendering is kept symbolic: a string built by [+] is a sequence of
    pieces, a piece being one code unit or the code units of
    [Number::toString] of a given Number. *)

Inductive Piece : Type :=
| CU (c : N)
| NumberText (x : Number).

Definition Rope : Type := list Piece.

Definition plain (s : JsString) : Rope := List.map CU s.

(** ToString.  An array is its elements joined by [","], with [null] and
    [undefined] elements rendered empty. *)
Fixpoint to_string (v : JsVal) : Rope :=
  match v with
  | JUndefined => plain (lit "undefined")
  | JNull => plain (lit "null")
  | JBool true => plain (lit "true")
  | JBool false => plain (lit "false")
  | JNumber x => [NumberText x]
  | JString s => plain s
  | JArray xs =>
      (fix join (ys : list JsVal) : Rope :=
         let element y :=
           match y with
           | JUndefined | JNull => []
           | _ => to_string y
           end in
         match ys with
         | [] => []
         | [y] => element y
         | y :: rest => element y ++ plain (lit ",") ++ join rest
         end) xs
  | JObject _ => plain (lit "[object Object]")
  end.

(** The primitive values that reach [+]. *)
Inductive Prim : Type :=
| PUndefined
| PNull
| PBool (b : bool)
| PNumber (x : Number)
| PString (r : Rope).

(** ToPrimitive: arrays and objects become their string. *)
Definition to_primitive (v : JsVal) : Prim :=
  match v with
  | JUndefined => PUndefined
  | JNull => PNull
  | JBool b => PBool b
  | JNumber x => PNumber x
  | JString s => PString (plain s)
  | JArray _ | JObject _ => PString (to_string v)
  end.

Definition prim_to_string (p : Prim) : Rope :=
  match p with
  | PUndefined => plain (lit "undefined")
  | PNull => plain (lit "null")
  | PBool true => plain (lit "true")
  | PBool false => plain (lit "false")
  | PNumber x => [NumberText x]
  | PString r => r
  end.

(** ToNumber, for the primitives that are not strings. *)
Definition prim_to_number (p : Prim) : Number :=
  match p with
  | PUndefined => S754_nan
  | PNull => pos_zero
  | PBool true => one
  | PBool false => pos_zero
  | PNumber x => x
  | PString _ => S754_nan
  end.

(** What a [text] property holds: a string built by [+], or any other value
    that was stored as it came. *)
Inductive Text : Type :=
| TString (r : Rope)
| TOther (v : JsVal).

(** Storing a value in a [text] property. *)
Definition text_of (v : JsVal) : Text :=
  match v with
  | JString s => TString (plain s)
  | _ => TOther v
  end.

Definition text_primitive (t : Text) : Prim :=
  match t with
  | TString r => PString r
  | TOther v => to_primitive v
  end.

(** [a + b]: concatenation as soon as one operand is a string, the sum of
    the operands as Numbers otherwise. *)
Definition js_add (a : Text) (b : JsVal) : Text :=
  let pa := text_primitive a in
  let pb := to_primitive b in
  match pa, pb with
  | PString _, _ | _, PString _ => TString (prim_to_string pa ++ prim_to_string pb)
  | _, _ => TOther (JNumber (number_add (prim_to_number pa) (prim_to_number pb)))
  end.

End Js.

Import Js.

(** ** The component state *)

(** The number [Date.now() + Math.random()] given to a new message. *)
Definition Id : Type := Number.

(** An element of [messages].  A user message has no [hasAnswer] property. *)
Record Message : Type := {
  id : Id;
  sender : JsString;
  text : Text;
  hasAnswer : option bool
}.

(** The four [useState] cells. *)
Record State : Type := {
  input : JsString;
  messages : list Message;
  loading : bool;
  isConnected : bool
}.

Definition initial_state : State :=
  {| input := []; messages := []; loading := false; isConnected := false |}.

Definition setInput (v : JsString) (st : State) : State :=
  {| input := v; messages := messages st;
     loading := loading st; isConnected := isConnected st |}.

(** [setMessages] with an updater function. *)
Definition setMessages (f : list Message -> list Message) (st : State) : State :=
  {| input := input st; messages := f (messages st);
     loading := loading st; isConnected := isConnected st |}.

Definition setLoading (b : bool) (st : State) : State :=
  {| input := input st; messages := messages st;
     loading := b; isConnected := isConnected st |}.

Definition setIsConnected (b : bool) (st : State) : State :=
  {| input := input st; messages := messages st;
     loading := loading st; isConnected := b |}.

(** [prev[prev.length - 1]], [undefined] on the empty array. *)
Fixpoint lastOf (prev : list Message) : option Message :=
  match prev with
  | [] => None
  | [m] => Some m
  | _ :: rest => lastOf rest
  end.

(** [!m.hasAnswer] *)
Definition not_hasAnswer (m : Message) : bool :=
  match hasAnswer m with
  | Some b => negb b
  | None => true
  end.

(** ** The WebSocket callbacks *)

Definition ws_onopen (st : State) : State :=
  setIsConnected true st.

Definition ws_onclose (st : State) : State :=
  setLoading false (setIsConnected false st).

Definition ws_onerror (st : State) : State :=
  setLoading false (setIsConnected false st).

(** The updater of the [token] branch. *)
Definition append_token (content : JsVal) (now : Id) (prev : list Message)
  : list Message :=
  match lastOf prev with
  | Some last =>
      if str_eqb (sender last) (lit "bot") && not_hasAnswer last then
        removelast prev ++
          [ {| id := id last; sender := sender last;
               text := js_add (text last) content;
               hasAnswer := hasAnswer last |} ]
      else
        prev ++
          [ {| id := now; sender := lit "bot";
               text := text_of content; hasAnswer := Some false |} ]
  | None =>
      prev ++
        [ {| id := now; sender := lit "bot";
             text := text_of content; hasAnswer := Some false |} ]
  end.

(** The updater of the [delimiter] branch. *)
Definition finalize_last (prev : list Message) : list Message :=
  match lastOf prev with
  | Some last =>
      if str_eqb (sender last) (lit "bot") then
        removelast prev ++
          [ {| id := id last; sender := sender last;
               text := text last; hasAnswer := Some true |} ]
      else prev
  | None => prev
  end.

(** The updater of the [error] branch. *)
Definition append_error (content : JsVal) (now : Id) (prev : list Message)
  : list Message :=
  prev ++
    [ {| id := now; sender := lit "bot";
         text := text_of (js_or content (JString (lit "An error occurred")));
         hasAnswer := Some false |} ].

(** What [JSON.parse(event.data)] did with the frame. *)
Inductive ParseOutcome : Type :=
| Parsed (data : JsVal)
| Malformed.

Definition JSON_parse (frame : ParseOutcome) : Completion JsVal :=
  match frame with
  | Parsed data => Normal data
  | Malformed => Throw SyntaxError
  end.

(** [data.type === "delimiter" && data.text === "###"] *)
Definition is_finalize_delimiter (data : JsVal) : Completion bool :=
  type <- get data (lit "type") ;;
  if strict_eq_str type (lit "delimiter") then
    text <- get data (lit "text") ;;
    Normal (strict_eq_str text (lit "###"))
  else Normal false.

(** The [try] block of [ws.onmessage]. *)
Definition onmessage_try (frame : ParseOutcome) (now : Id) (st : State)
  : Completion State :=
  data <- JSON_parse frame ;;
  type <- get data (lit "type") ;;
  if strict_eq_str type (lit "token") then
    content <- get data (lit "content") ;;
    Normal (setMessages (append_token content now) st)
  else
    finalize <- is_finalize_delimiter data ;;
    if finalize then
      Normal (setLoading false (setMessages finalize_last st))
    else if strict_eq_str type (lit "error") then
      content <- get data (lit "content") ;;
      Normal (setLoading false (setMessages (append_error content now) st))
    else if strict_eq_str type (lit "typing") then
      Normal st
    else
      Normal st.

(** The [catch] block of [ws.onmessage]. *)
Definition onmessage_catch (error : JsError) (st : State) : Completion State :=
  Normal (setLoading false st).

Definition ws_onmessage (frame : ParseOutcome) (now : Id) (st : State)
  : Completion State :=
  try_catch (onmessage_try frame now st) (fun error => onmessage_catch error st).

(** ** The form *)

(** [socketRef.current?.readyState]: [None] when the ref holds no socket. *)
Inductive ReadyState : Type := CONNECTING | OPEN | CLOSING | CLOSED.

Definition is_OPEN (socket : option ReadyState) : bool :=
  match socket with
  | Some OPEN => true
  | _ => false
  end.

(** The value handed to [JSON.stringify] by each [socketRef.current.send]. *)
Definition Wire : Type := list JsVal.

Definition handleSubmit (now_user now_bot : Id) (socket : option ReadyState)
  (st : State) : State * Wire :=
  if str_not (trim (input st)) || negb (isConnected st) then (st, [])
  else
    let userMessage :=
      {| id := now_user; sender := lit "user";
         text := text_of (JString (input st)); hasAnswer := None |} in
    let st1 := setMessages (fun prev => prev ++ [userMessage]) st in
    let st2 := setLoading true (setInput [] st1) in
    if is_OPEN socket then
      (st2, [ JObject [ (lit "message", JString (input st)) ] ])
    else
      (setLoading false
         (setMessages
            (fun prev =>
               prev ++
                 [ {| id := now_bot; sender := lit "bot";
                      text := text_of (JString (lit
                        "Connection lost. Please refresh the page to reconnect."));
                      hasAnswer := Some false |} ])
            st2),
       []).

(** ** Runs of the mounted component *)

Inductive Event : Type :=
| WsOpen
| WsClose
| WsError
| WsMessage (frame : ParseOutcome) (now : Id)
| Change (value : JsString)
| Submit (now_user now_bot : Id) (socket : option ReadyState).

(** The state a callback leaves; a callback that threw would leave the state
    it was called in. *)
Definition settle (st : State) (c : Completion State) : State :=
  match c with
  | Normal st' => st'
  | Throw _ => st
  end.

Definition step (ev : Event) (st : State) : State :=
  match ev with
  | WsOpen => ws_onopen st
  | WsClose => ws_onclose st
  | WsError => ws_onerror st
  | WsMessage frame now => settle st (ws_onmessage frame now st)
  | Change value => setInput value st
  | Submit now_user now_bot socket => fst (handleSubmit now_user now_bot socket st)
  end.

Fixpoint run (evs : list Event) (st : State) : State :=
  match evs with
  | [] => st
  | ev :: rest => run rest (step ev st)
  end.

(** Every state of a run, the first one included. *)
Fixpoint trace (evs : list Event) (st : State) : list State :=
  match evs with
  | [] => [st]
  | ev :: rest => st :: trace rest (step ev st)
  end.

(** The frames of the wire protocol. *)
Definition token_frame (content : JsString) : ParseOutcome :=
  Parsed (JObject [ (lit "type", JString (lit "token"));
                    (lit "content", JString content) ]).

Definition delimiter_frame (text : JsVal) : ParseOutcome :=
  Parsed (JObject [ (lit "type", JString (lit "delimiter"));
                    (lit "text", text) ]).

Definition finalize_frame : ParseOutcome :=
  delimiter_frame (JString (lit "###")).

Definition error_frame (content : JsVal) : ParseOutcome :=
  Parsed (JObject [ (lit "type", JString (lit "error"));
                    (lit "content", content) ]).

(** ** Vocabulary of the statements *)

(** The messages [handleSubmit] creates. *)
Definition user_turn (now : Id) (query : JsString) : Message :=
  {| id := now; sender := lit "user";
     text := TString (plain query); hasAnswer := None |}.

Definition bot_turn (now : Id) (shown : JsString) (finalized : bool) : Message :=
  {| id := now; sender := lit "bot";
     text := TString (plain shown); hasAnswer := Some finalized |}.

Definition connection_lost : JsString :=
  lit "Connection lost. Please refresh the page to reconnect.".

Definition fallback_error : JsString := lit "An error occurred".

(** The text shown for an error frame whose [content] is the string [m]. *)
Definition shown_error (m : JsString) : JsString :=
  match m with
  | [] => fallback_error
  | _ => m
  end.

(** An open assistant turn: a bot message with [hasAnswer] false. *)
Definition is_open_bot (m : Message) : bool :=
  str_eqb (sender m) (lit "bot") && not_hasAnswer m.

Definition last_is_open (prev : list Message) : bool :=
  match lastOf prev with
  | Some last => is_open_bot last
  | None => false
  end.

Definition token_events (tokens : list (JsString * Id)) : list Event :=
  List.map (fun t => WsMessage (token_frame (fst t)) (snd t)) tokens.

Definition open_turns (prev : list Message) : nat :=
  List.length (filter is_open_bot prev).

(** No message but the last is an open bot message. *)
Definition open_only_last (prev : list Message) : bool :=
  forallb (fun m => negb (is_open_bot m)) (removelast prev).

(** The events that append a message whatever the transcript holds: a
    submit, and a frame of type ["error"]. *)
Definition appends_always (ev : Event) : bool :=
  match ev with
  | Submit _ _ _ => true
  | WsMessage (Parsed data) _ =>
      match get data (lit "type") with
      | Normal type => strict_eq_str type (lit "error")
      | Throw _ => false
      end
  | _ => false
  end.

(** Every event of the run that appends unconditionally is processed while
    the last message is not an open bot message. *)
Fixpoint orderly (evs : list Event) (st : State) : bool :=
  match evs with
  | [] => true
  | ev :: rest =>
      (negb (appends_always ev) || negb (last_is_open (messages st)))
      && orderly rest (step ev st)
  end.

Definition idle_when_disconnected (st : State) : Prop :=
  isConnected st = false -> loading st = false.

Definition two_queries : list Event :=
  [ WsOpen;
    Change (lit "hi"); Submit pos_zero pos_zero (Some OPEN);
    WsMessage (token_frame (lit "Hel")) one;
    WsMessage (token_frame (lit "lo!")) one;
    WsMessage finalize_frame one;
    Change (lit "x"); Submit pos_zero pos_zero (Some OPEN);
    WsMessage (error_frame (JString (lit "oops"))) one ].

(** ** What the component renders *)

(** The submit button's [disabled] attribute. *)
Definition button_disabled (st : State) : bool :=
  loading st || str_not (trim (input st)) || negb (isConnected st).

(** The chat panel: the welcome screen, which tells whether the socket is
    ready, or the message bubbles followed, in some states, by the loading
    indicator. *)
Inductive Panel : Type :=
| Welcome (streaming_ready : bool)
| Conversation (bubbles : list Message) (indicator : bool).

Definition render_panel (st : State) : Panel :=
  if Nat.eqb (List.length (messages st)) 0 then Welcome (isConnected st)
  else
    Conversation (messages st)
      (loading st
       && (Nat.eqb (List.length (messages st)) 0
           || match lastOf (messages st) with
              | Some last => str_eqb (sender last) (lit "user")
              | None => false
              end)).

(** ** The mount effect *)

(** The component with its ref: [socketRef.current] is [None] when it holds
    no socket, and otherwise tells the socket's [readyState]. *)
Record Mounted : Type := {
  cells : State;
  socketRef : option ReadyState
}.

(** The body of the effect; the boolean tells whether [new WebSocket] was
    evaluated.  The constructor is taken to return; a new socket is
    CONNECTING. *)
Definition effect_mount (m : Mounted) : Mounted * bool :=
  match socketRef m with
  | None => ({| cells := cells m; socketRef := Some CONNECTING |}, true)
  | Some _ => (m, false)
  end.

(** The cleanup the effect returns; the boolean tells whether
    [socketRef.current.close()] was called. *)
Definition effect_cleanup (m : Mounted) : Mounted * bool :=
  let closes :=
    match socketRef m with
    | Some OPEN | Some CONNECTING => true
    | _ => false
    end in
  ({| cells := setIsConnected false (cells m); socketRef := None |}, closes).

(** [handleSubmit] reads the socket's state through the ref. *)
Definition submit_mounted (now_user now_bot : Id) (m : Mounted) : State * Wire :=
  handleSubmit now_user now_bot (socketRef m) (cells m).

(** ** Vocabulary of the further statements *)

(** What identifies a message: its [id] and its [sender]. *)
Definition identity (m : Message) : Id * JsString := (id m, sender m).

(** [isConnected] after the events [evs], when it was [c] before. *)
Fixpoint connection_after (evs : list Event) (c : bool) : bool :=
  match evs with
  | [] => c
  | WsOpen :: rest => connection_after rest true
  | WsClose :: rest | WsError :: rest => connection_after rest false
  | _ :: rest => connection_after rest c
  end.

(** The frames an event sends, and the frames a run sends, in order. *)
Definition emitted (ev : Event) (st : State) : Wire :=
  match ev with
  | Submit now_user now_bot socket => snd (handleSubmit now_user now_bot socket st)
  | _ => []
  end.

Fixpoint sent (evs : list Event) (st : State) : Wire :=
  match evs with
  | [] => []
  | ev :: rest => emitted ev st ++ sent rest (step ev st)
  end.

(** The frame [{ message: query }]. *)
Definition query_frame (query : JsString) : JsVal :=
  JObject [ (lit "message", JString query) ].

(** A token frame whose [content] is any JSON value. *)
Definition token_frame_of (content : JsVal) : ParseOutcome :=
  Parsed (JObject [ (lit "type", JString (lit "token"));
                    (lit "content", content) ]).

(** A message that no event changes any more: it is not the last one, or it
    is not an open bot message. *)
Definition settled (prev : list Message) (i : nat) (m : Message) : Prop :=
  nth_error prev i = Some m
  /\ (S i < List.length prev \/ is_open_bot m = false).

(** ** The request-response chat component

    [ChatbotComponent] (frontend/blog_app/src/components/Chatbot.jsx).  Its
    [handleSubmit] is an async function: [handleSubmit_start] is the part
    that runs up to the first [await], [handleSubmit_resume] the part that
    runs once [fetch] and [response.json()] have settled. *)

Module Chatbot.

(** A user message has no [hasAnswer] property; a bot message has the
    reply's [has_answer], whatever value that is. *)
Record Message : Type := {
  sender : JsString;
  text : Text;
  hasAnswer : option JsVal
}.

Record State : Type := {
  input : JsString;
  messages : list Message;
  loading : bool
}.

Definition initial_state : State :=
  {| input := []; messages := []; loading := false |}.

Definition apology : Message :=
  {| sender := lit "bot";
     text := text_of (JString (lit
       "Sorry, I encountered an error while processing your request."));
     hasAnswer := Some (JBool false) |}.

(** Up to the first [await]: the new state and, when [fetch] is called, the
    value handed to [JSON.stringify] for the request body.  The [messages]
    the handler spreads are those of the render it was created in, taken
    here to be the current ones. *)
Definition handleSubmit_start (st : State) : State * option JsVal :=
  if str_not (trim (input st)) then (st, None)
  else
    let userMessage :=
      {| sender := lit "user"; text := text_of (JString (input st));
         hasAnswer := None |} in
    ({| input := []; messages := messages st ++ [userMessage];
        loading := true |},
     Some (JObject [ (lit "text", JString (input st)) ])).

(** What the two awaits settle to: [fetch] rejects, or [response.json()]
    parses the body or rejects. *)
Inductive Response : Type :=
| NetworkError
| Body (json : ParseOutcome).

Definition await_data (r : Response) : Completion JsVal :=
  match r with
  | NetworkError => Throw TypeError
  | Body json => JSON_parse json
  end.

(** The updater [prevMessages => [...prevMessages, message]]. *)
Definition append_message (message : Message) (st : State) : State :=
  {| input := input st; messages := messages st ++ [message];
     loading := loading st |}.

Definition resume_try (r : Response) (st : State) : Completion State :=
  data <- await_data r ;;
  answer <- get data (lit "answer") ;;
  has_answer <- get data (lit "has_answer") ;;
  Normal (append_message
            {| sender := lit "bot"; text := text_of answer;
               hasAnswer := Some has_answer |} st).

Definition resume_catch (error : JsError) (st : State) : Completion State :=
  Normal (append_message apology st).

(** After the awaits: the [try] block's remainder, the [catch] block, and
    the [setLoading(false)] that follows them. *)
Definition handleSubmit_resume (r : Response) (st : State) : Completion State :=
  st' <- try_catch (resume_try r st) (fun error => resume_catch error st) ;;
  Normal {| input := input st'; messages := messages st'; loading := false |}.

End Chatbot.

(** ** Facts about the JavaScript fragment *)

Lemma str_eqb_refl (s : JsString) : str_eqb s s = true.
Proof.
  induction s as [|c s IH]; simpl; [reflexivity|].
  now rewrite N.eqb_refl, IH.
Qed.

Lemma str_eqb_eq (a b : JsString) : str_eqb a b = true <-> a = b.
Proof.
  split; [|intros ->; apply str_eqb_refl].
  revert b; induction a as [|x a IH]; destruct b as [|y b]; simpl;
    try discriminate; [reflexivity|].
  intros H. apply andb_prop in H as [Hx Hs].
  apply N.eqb_eq in Hx. apply IH in Hs. congruence.
Qed.

Lemma strict_eq_str_true (v : JsVal) (s : JsString) :
  strict_eq_str v s = true <-> v = JString s.
Proof.
  destruct v; simpl; try (split; [discriminate|intros H; discriminate H]).
  rewrite str_eqb_eq. split; congruence.
Qed.

Lemma plain_app (a b : JsString) : plain (a ++ b) = plain a ++ plain b.
Proof. apply map_app. Qed.

(** [+] on two strings is their concatenation. *)
Lemma js_add_strings (a b : JsString) :
  js_add (TString (plain a)) (JString b) = TString (plain (a ++ b)).
Proof. unfold js_add; simpl. now rewrite plain_app. Qed.

(** A property read that succeeded never failed on the same value. *)
Lemma get_total (data : JsVal) (k1 k2 : JsString) (v : JsVal) :
  get data k1 = Normal v -> exists w, get data k2 = Normal w.
Proof.
  destruct data; simpl; intros H; try discriminate; eauto.
Qed.

Lemma trim_start_blank (s : JsString) :
  forallb is_white_space s = true -> trim_start s = [].
Proof.
  induction s as [|c s IH]; simpl; [reflexivity|].
  intros H. apply andb_prop in H as [Hc Hs]. now rewrite Hc, IH.
Qed.

Lemma trim_start_nil_blank (s : JsString) :
  trim_start s = [] -> forallb is_white_space s = true.
Proof.
  induction s as [|c s IH]; simpl; [reflexivity|].
  destruct (is_white_space c); [auto|discriminate].
Qed.

(** [trim] leaves nothing exactly when every code unit is white space. *)
Lemma trim_blank_iff (s : JsString) :
  str_not (trim s) = true <-> forallb is_white_space s = true.
Proof.
  unfold trim, trim_end. split.
  - intros H. destruct (trim_start s) as [|c r] eqn:E.
    + now apply trim_start_nil_blank.
    + exfalso. revert H.
      destruct (trim_start (rev (c :: r))) as [|d q] eqn:E2.
      * apply trim_start_nil_blank in E2.
        rewrite forallb_forall in E2.
        assert (Hc : is_white_space c = true)
          by (apply E2, in_rev; rewrite rev_involutive; left; reflexivity).
        clear E2. destruct s as [|x s]; [discriminate|].
        revert x E. induction s as [|y s IH]; intros x; simpl.
        -- destruct (is_white_space x) eqn:Ex; [discriminate|].
           intros E; injection E as -> _. congruence.
        -- destruct (is_white_space x) eqn:Ex.
           ++ apply IH.
           ++ intros E; injection E as -> _. congruence.
      * simpl. destruct (rev q ++ [d]) eqn:E3; [|discriminate].
        now apply app_eq_nil in E3 as [_ E3].
  - intros H. now rewrite (trim_start_blank _ H).
Qed.

(** ** Facts about the last element *)

Lemma lastOf_snoc (prev : list Message) (m : Message) :
  lastOf (prev ++ [m]) = Some m.
Proof.
  induction prev as [|x prev IH]; simpl; [reflexivity|].
  rewrite IH. destruct prev; reflexivity.
Qed.

Lemma lastOf_split (prev : list Message) (m : Message) :
  lastOf prev = Some m -> prev = removelast prev ++ [m].
Proof.
  induction prev as [|x prev IH]; [discriminate|].
  destruct prev as [|y prev].
  - simpl. now intros [= ->].
  - intros H. change (lastOf (x :: y :: prev)) with (lastOf (y :: prev)) in H.
    change (removelast (x :: y :: prev)) with (x :: removelast (y :: prev)).
    simpl app. f_equal. now apply IH.
Qed.

Lemma lastOf_None (prev : list Message) : lastOf prev = None -> prev = [].
Proof.
  induction prev as [|x prev IH]; [reflexivity|].
  destruct prev as [|y prev]; [discriminate|].
  intros H. change (lastOf (y :: prev) = None) in H. now apply IH in H.
Qed.

(** ** The callbacks on the frames of the protocol *)

Lemma onmessage_malformed (now : Id) (st : State) :
  ws_onmessage Malformed now st = Normal (setLoading false st).
Proof. reflexivity. Qed.

Lemma onmessage_token (content : JsString) (now : Id) (st : State) :
  ws_onmessage (token_frame content) now st
  = Normal (setMessages (append_token (JString content) now) st).
Proof. reflexivity. Qed.

Lemma onmessage_finalize (now : Id) (st : State) :
  ws_onmessage finalize_frame now st
  = Normal (setLoading false (setMessages finalize_last st)).
Proof. reflexivity. Qed.

Lemma onmessage_error (content : JsVal) (now : Id) (st : State) :
  ws_onmessage (error_frame content) now st
  = Normal (setLoading false (setMessages (append_error content now) st)).
Proof. reflexivity. Qed.

(** Whatever the frame, the callback completes normally; it leaves [input]
    and [isConnected] alone and can only clear [loading]. *)
Lemma onmessage_completes (frame : ParseOutcome) (now : Id) (st : State) :
  exists st',
    ws_onmessage frame now st = Normal st'
    /\ input st' = input st
    /\ isConnected st' = isConnected st
    /\ (loading st' = loading st \/ loading st' = false).
Proof.
  unfold ws_onmessage, onmessage_try, is_finalize_delimiter.
  destruct frame as [data|]; [destruct data|]; simpl;
    repeat match goal with
           | |- context [if ?c then _ else _] => destruct c; simpl
           end;
    eexists; (split; [reflexivity|]); simpl; auto.
Qed.

Lemma finalize_last_idempotent (prev : list Message) :
  finalize_last (finalize_last prev) = finalize_last prev.
Proof.
  unfold finalize_last at 2 3.
  destruct (lastOf prev) as [last|] eqn:E.
  - destruct (str_eqb (sender last) (lit "bot")) eqn:B.
    + unfold finalize_last. rewrite lastOf_snoc. simpl sender. rewrite B.
      now rewrite removelast_last.
    + unfold finalize_last. now rewrite E, B.
  - unfold finalize_last. now rewrite E.
Qed.

(** ** Malformed frames *)

(** C3: a frame on which [JSON.parse] throws leaves [messages] as they were
    and [loading] false; the SyntaxError raised in the [try] block is caught,
    so the callback completes normally. *)
Theorem C3_malformed_frame_recovered (now : Id) (st : State) :
  onmessage_try Malformed now st = Throw SyntaxError
  /\ ws_onmessage Malformed now st = Normal (setLoading false st)
  /\ messages (step (WsMessage Malformed now) st) = messages st
  /\ loading (step (WsMessage Malformed now) st) = false.
Proof. repeat split. Qed.

(** ** Disconnection *)

Lemma idle_when_disconnected_step (ev : Event) (st : State) :
  idle_when_disconnected st -> idle_when_disconnected (step ev st).
Proof.
  unfold idle_when_disconnected. intros Inv.
  destruct ev as [| | |frame now|value|now_user now_bot socket]; simpl;
    try tauto; try discriminate.
  - destruct (onmessage_completes frame now st) as (st' & -> & _ & Hc & Hl).
    simpl. rewrite Hc. intros H. destruct Hl as [-> | ->]; auto.
  - unfold handleSubmit.
    destruct (str_not (trim (input st)) || negb (isConnected st)) eqn:G;
      [exact Inv|].
    apply orb_false_elim in G as [_ G]. apply negb_false_iff in G.
    destruct (is_OPEN socket); simpl; congruence.
Qed.

Lemma idle_when_disconnected_trace (evs : list Event) (st : State) :
  idle_when_disconnected st -> Forall idle_when_disconnected (trace evs st).
Proof.
  revert st. induction evs as [|ev evs IH]; intros st Inv; simpl.
  - constructor; [exact Inv|constructor].
  - constructor; [exact Inv|]. apply IH. now apply idle_when_disconnected_step.
Qed.

(** C5: [ws.onclose] and [ws.onerror] leave [loading] false and add no
    message; and no state of any run from the mounted component's first state
    has [isConnected] false with [loading] true. *)
Theorem C5_disconnect_clears_loading :
  (forall st, loading (ws_onclose st) = false
              /\ isConnected (ws_onclose st) = false
              /\ messages (ws_onclose st) = messages st)
  /\ (forall st, loading (ws_onerror st) = false
                 /\ isConnected (ws_onerror st) = false
                 /\ messages (ws_onerror st) = messages st)
  /\ (forall evs,
        Forall (fun st => isConnected st = false -> loading st = false)
               (trace evs initial_state)).
Proof.
  split; [|split].
  - intros st. repeat split.
  - intros st. repeat split.
  - intros evs. apply idle_when_disconnected_trace. intros _. reflexivity.
Qed.

(** ** The finalize delimiter *)

(** C6: a second ["###"] delimiter changes no message, and [loading] is
    false after the first and after the second; the second leaves the whole
    state as the first left it. *)
Theorem C6_finalize_idempotent (now1 now2 : Id) (st : State) :
  let once := step (WsMessage finalize_frame now1) st in
  let twice := step (WsMessage finalize_frame now2) once in
  messages twice = messages once
  /\ loading once = false
  /\ loading twice = false
  /\ twice = once.
Proof.
  simpl. repeat split; [apply finalize_last_idempotent|].
  unfold setLoading, setMessages; simpl.
  now rewrite finalize_last_idempotent.
Qed.

(** C9: a frame of type ["delimiter"] whose [text] is not ["###"] changes
    nothing: the messages stay and [loading], if it was true, stays true. *)
Theorem C9_wrong_sentinel_delimiter_ignored
  (data text : JsVal) (now : Id) (st : State) :
  get data (lit "type") = Normal (JString (lit "delimiter")) ->
  get data (lit "text") = Normal text ->
  text <> JString (lit "###") ->
  ws_onmessage (Parsed data) now st = Normal st
  /\ step (WsMessage (Parsed data) now) st = st
  /\ (loading st = true -> loading (step (WsMessage (Parsed data) now) st) = true).
Proof.
  intros Hty Htx Hne.
  assert (E : ws_onmessage (Parsed data) now st = Normal st).
  { unfold ws_onmessage, onmessage_try, is_finalize_delimiter. simpl JSON_parse.
    simpl bind at 1. rewrite Hty. simpl. rewrite Htx. simpl.
    destruct (strict_eq_str text (lit "###")) eqn:S; [|reflexivity].
    apply strict_eq_str_true in S. contradiction. }
  split; [exact E|]. simpl. rewrite E. simpl. auto.
Qed.

Lemma C9_wrong_sentinel_delimiter_ignored_witness :
  let st := {| input := []; messages := []; loading := true; isConnected := true |} in
  ws_onmessage (delimiter_frame (JString (lit "##"))) pos_zero st = Normal st
  /\ step (WsMessage (delimiter_frame (JString (lit "##"))) pos_zero) st = st
  /\ (loading st = true ->
      loading (step (WsMessage (delimiter_frame (JString (lit "##"))) pos_zero) st) = true).
Proof.
  apply (@C9_wrong_sentinel_delimiter_ignored _ (JString (lit "##"))).
  - reflexivity.
  - reflexivity.
  - discriminate.
Defined.

(** ** Submitting a query *)

(** C7: a submit whose input is empty or made of white space only changes
    no state cell (no user message, [loading] as it was) and sends nothing. *)
Theorem C7_blank_submit_ignored
  (now_user now_bot : Id) (socket : option ReadyState) (st : State) :
  forallb is_white_space (input st) = true ->
  str_not (trim (input st)) = true
  /\ handleSubmit now_user now_bot socket st = (st, []).
Proof.
  intros Hblank. apply trim_blank_iff in Hblank.
  split; [exact Hblank|]. unfold handleSubmit. now rewrite Hblank.
Qed.

Lemma C7_blank_submit_ignored_witness :
  let st := {| input := [32; 9; 160; 32]%N; messages := [];
               loading := false; isConnected := true |} in
  str_not (trim (input st)) = true
  /\ handleSubmit one one (Some OPEN) st = (st, []).
Proof.
  apply (@C7_blank_submit_ignored one one (Some OPEN)
           {| input := [32; 9; 160; 32]%N; messages := [];
              loading := false; isConnected := true |}).
  reflexivity.
Defined.

(** C4, as the spec states it, fails: once [ws.onclose] has run, a submit
    of ["test"] returns at the guard; no bot message reports the closed
    connection. *)
Lemma C4_closed_submit_is_silent :
  handleSubmit one one (Some CLOSED)
    (run [WsOpen; WsClose; Change (lit "test")] initial_state)
  = ({| input := lit "test"; messages := [];
        loading := false; isConnected := false |}, []).
Proof. reflexivity. Qed.

(** C4, amended: a submit of a non-blank input while [isConnected] is false
    or the socket is not OPEN sends nothing.  With [isConnected] false it
    changes nothing at all; with [isConnected] still true it appends the user
    message and then a bot message that reports the lost connection, with
    [loading] false. *)
Theorem C4_submit_without_open_socket
  (now_user now_bot : Id) (socket : option ReadyState) (st : State) :
  str_not (trim (input st)) = false ->
  isConnected st = false \/ socket <> Some OPEN ->
  snd (handleSubmit now_user now_bot socket st) = []
  /\ (isConnected st = false ->
      fst (handleSubmit now_user now_bot socket st) = st)
  /\ (isConnected st = true ->
      fst (handleSubmit now_user now_bot socket st)
      = {| input := [];
           messages := messages st
                       ++ [user_turn now_user (input st)]
                       ++ [bot_turn now_bot connection_lost false];
           loading := false;
           isConnected := true |}).
Proof.
  intros Hquery Hclosed. unfold handleSubmit. rewrite Hquery. simpl orb.
  destruct (isConnected st) eqn:Hc; simpl negb; cbv iota.
  - assert (Hs : is_OPEN socket = false).
    { destruct Hclosed as [H|H]; [discriminate|].
      destruct socket as [[]|]; try reflexivity. now elim H. }
    rewrite Hs. repeat split; [discriminate|]. intros _.
    unfold setLoading, setMessages, setInput; simpl.
    now rewrite Hc, <- app_assoc.
  - repeat split. discriminate.
Qed.

Lemma C4_submit_without_open_socket_witness :
  let st := {| input := lit "test"; messages := [];
               loading := false; isConnected := true |} in
  snd (handleSubmit pos_zero one (Some CLOSING) st) = []
  /\ (isConnected st = false ->
      fst (handleSubmit pos_zero one (Some CLOSING) st) = st)
  /\ (isConnected st = true ->
      fst (handleSubmit pos_zero one (Some CLOSING) st)
      = {| input := [];
           messages := messages st
                       ++ [user_turn pos_zero (input st)]
                       ++ [bot_turn one connection_lost false];
           loading := false;
           isConnected := true |}).
Proof.
  apply (@C4_submit_without_open_socket pos_zero one (Some CLOSING)
           {| input := lit "test"; messages := [];
              loading := false; isConnected := true |}).
  - reflexivity.
  - right. discriminate.
Defined.

(** ** The error signal *)

Lemma error_text_string (m : JsString) :
  text_of (js_or (JString m) (JString (lit "An error occurred")))
  = TString (plain (shown_error m)).
Proof. destruct m; reflexivity. Qed.

(** C8: an error frame appends exactly one bot message, not finalized,
    whose text is the frame's [content] when that is truthy and
    ["An error occurred"] otherwise (absent, [null] or empty), and leaves
    [loading] false.  From the first state, opening the socket, typing
    ["x"], submitting and receiving the error ["oops"] gives the two messages
    user ["x"], bot ["oops"] not finalized, with [loading] false. *)
Theorem C8_error_signal_appends_turn :
  (forall content now st,
      let st' := step (WsMessage (error_frame content) now) st in
      messages st'
      = messages st
        ++ [ {| id := now; sender := lit "bot";
                text := text_of (if to_boolean content then content
                                 else JString fallback_error);
                hasAnswer := Some false |} ]
      /\ loading st' = false)
  /\ (forall c m now st,
        messages (step (WsMessage (error_frame (JString (c :: m))) now) st)
        = messages st ++ [bot_turn now (c :: m) false])
  /\ (forall now st,
        messages (step (WsMessage (error_frame (JString [])) now) st)
        = messages st ++ [bot_turn now fallback_error false]
        /\ messages (step (WsMessage (error_frame JNull) now) st)
           = messages st ++ [bot_turn now fallback_error false]
        /\ messages (step (WsMessage
                       (Parsed (JObject [(lit "type", JString (lit "error"))]))
                       now) st)
           = messages st ++ [bot_turn now fallback_error false])
  /\ (forall now_user now_bot now,
        run [ WsOpen; Change (lit "x"); Submit now_user now_bot (Some OPEN);
              WsMessage (error_frame (JString (lit "oops"))) now ]
            initial_state
        = {| input := [];
             messages := [ user_turn now_user (lit "x");
                           bot_turn now (lit "oops") false ];
             loading := false;
             isConnected := true |}).
Proof.
  repeat split.
Qed.

(** ** Token streams *)

Lemma append_token_new (content : JsVal) (now : Id) (prev : list Message) :
  last_is_open prev = false ->
  append_token content now prev
  = prev ++ [ {| id := now; sender := lit "bot";
                 text := text_of content; hasAnswer := Some false |} ].
Proof.
  unfold last_is_open, append_token, is_open_bot.
  destruct (lastOf prev) as [last|]; [|reflexivity].
  now intros ->.
Qed.

Lemma append_token_open (content : JsVal) (now : Id)
  (prev : list Message) (last : Message) :
  is_open_bot last = true ->
  append_token content now (prev ++ [last])
  = prev ++ [ {| id := id last; sender := sender last;
                 text := js_add (text last) content;
                 hasAnswer := hasAnswer last |} ].
Proof.
  unfold append_token, is_open_bot. rewrite lastOf_snoc. intros ->.
  now rewrite removelast_last.
Qed.

Lemma finalize_last_bot (prev : list Message) (last : Message) :
  str_eqb (sender last) (lit "bot") = true ->
  finalize_last (prev ++ [last])
  = prev ++ [ {| id := id last; sender := sender last;
                 text := text last; hasAnswer := Some true |} ].
Proof.
  unfold finalize_last. rewrite lastOf_snoc. intros ->.
  now rewrite removelast_last.
Qed.

Lemma step_token (content : JsString) (now : Id) (st : State) :
  messages (step (WsMessage (token_frame content) now) st)
  = append_token (JString content) now (messages st).
Proof. reflexivity. Qed.

Lemma run_tokens_cons (c : JsString) (n : Id) (tokens : list (JsString * Id))
  (st : State) :
  run (token_events ((c, n) :: tokens)) st
  = run (token_events tokens) (step (WsMessage (token_frame c) n) st).
Proof. reflexivity. Qed.

(** Tokens received while the last message is an open bot message whose text
    is the string [shown] extend that text, one after the other. *)
Lemma run_tokens_open (tokens : list (JsString * Id)) :
  forall (st : State) (prev : list Message) (now : Id) (shown : JsString),
    messages st = prev ++ [bot_turn now shown false] ->
    messages (run (token_events tokens) st)
    = prev ++ [bot_turn now (shown ++ List.concat (List.map fst tokens)) false].
Proof.
  induction tokens as [|[c n] tokens IH]; intros st prev now shown Hst.
  - simpl. now rewrite app_nil_r.
  - rewrite run_tokens_cons.
    change (List.concat (List.map fst ((c, n) :: tokens)))
      with (c ++ List.concat (List.map fst tokens)).
    rewrite (IH _ prev now (shown ++ c)).
    + now rewrite <- app_assoc.
    + rewrite step_token, Hst, append_token_open by reflexivity.
      simpl. now rewrite js_add_strings.
Qed.

Lemma submit_appends_user_turn
  (now_user now_bot : Id) (st : State) :
  str_not (trim (input st)) = false ->
  isConnected st = true ->
  handleSubmit now_user now_bot (Some OPEN) st
  = ({| input := [];
        messages := messages st ++ [user_turn now_user (input st)];
        loading := true;
        isConnected := true |},
     [ JObject [ (lit "message", JString (input st)) ] ]).
Proof.
  intros Hquery Hc. unfold handleSubmit. rewrite Hquery, Hc. simpl.
  unfold setLoading, setInput, setMessages; simpl. now rewrite Hc.
Qed.

(** C2: the tokens received after a submit, up to the next ["###"]
    delimiter, build one bot message whose text is the token contents joined
    in arrival order with nothing between them, and the delimiter finalizes
    that message; and a token received while the last message is not an open
    bot message (no message at all, a user message, or a finalized bot
    message) appends a bot message whose text is that token's content and
    whose [hasAnswer] is false. *)
Theorem C2_tokens_concatenate
  (st : State) (now_user now_bot : Id)
  (c0 : JsString) (now0 : Id) (tokens : list (JsString * Id)) (now_d : Id)
  (st' : State) (c : JsString) (now : Id) :
  str_not (trim (input st)) = false ->
  isConnected st = true ->
  last_is_open (messages st') = false ->
  (let submitted := step (Submit now_user now_bot (Some OPEN)) st in
   let streamed := run (token_events ((c0, now0) :: tokens)) submitted in
   messages streamed
   = messages st
     ++ [ user_turn now_user (input st);
          bot_turn now0 (List.concat (c0 :: List.map fst tokens)) false ]
   /\ messages (step (WsMessage finalize_frame now_d) streamed)
      = messages st
        ++ [ user_turn now_user (input st);
             bot_turn now0 (List.concat (c0 :: List.map fst tokens)) true ])
  /\ messages (step (WsMessage (token_frame c) now) st')
     = messages st' ++ [bot_turn now c false].
Proof.
  intros Hquery Hc Hlast.
  split; [|rewrite step_token; now apply append_token_new].
  cbv zeta.
  assert (Hstream :
    messages (run (token_events ((c0, now0) :: tokens))
                  (step (Submit now_user now_bot (Some OPEN)) st))
    = (messages st ++ [user_turn now_user (input st)])
      ++ [bot_turn now0 (c0 ++ List.concat (List.map fst tokens)) false]).
  { rewrite run_tokens_cons. apply run_tokens_open.
    rewrite step_token.
    change (step (Submit now_user now_bot (Some OPEN)) st)
      with (fst (handleSubmit now_user now_bot (Some OPEN) st)).
    rewrite submit_appends_user_turn by assumption. simpl fst. simpl messages.
    apply append_token_new. unfold last_is_open. now rewrite lastOf_snoc. }
  split.
  - rewrite Hstream. now rewrite <- app_assoc.
  - change (messages (step (WsMessage finalize_frame now_d) ?s))
      with (finalize_last (messages s)).
    rewrite Hstream, finalize_last_bot by reflexivity.
    now rewrite <- app_assoc.
Qed.

Lemma C2_tokens_concatenate_witness :
  let st := run [WsOpen; Change (lit "hi")] initial_state in
  (let submitted := step (Submit pos_zero pos_zero (Some OPEN)) st in
   let streamed :=
     run (token_events [(lit "Hel", one); (lit "lo!", pos_zero)]) submitted in
   messages streamed
   = messages st
     ++ [ user_turn pos_zero (input st);
          bot_turn one (List.concat [lit "Hel"; lit "lo!"]) false ]
   /\ messages (step (WsMessage finalize_frame pos_zero) streamed)
      = messages st
        ++ [ user_turn pos_zero (input st);
             bot_turn one (List.concat [lit "Hel"; lit "lo!"]) true ])
  /\ messages (step (WsMessage (token_frame (lit "a")) one) initial_state)
     = messages initial_state ++ [bot_turn one (lit "a") false].
Proof.
  apply (@C2_tokens_concatenate
           (run [WsOpen; Change (lit "hi")] initial_state) pos_zero pos_zero
           (lit "Hel") one [(lit "lo!", pos_zero)] pos_zero
           initial_state (lit "a") one).
  - reflexivity.
  - reflexivity.
  - reflexivity.
Defined.

(** C10: a token received right after an error frame is appended to the
    error message's text, and a ["###"] delimiter then sets that message's
    [hasAnswer] to true; when the error arrived on a transcript whose last
    message was not an open bot message, the result is the transcript that a
    token stream carrying the same text leaves. *)
Theorem C10_error_turn_not_protected
  (m c : JsString) (now_e now_t now_d : Id) (st st' : State) :
  last_is_open (messages st') = false ->
  (let errored := step (WsMessage (error_frame (JString m)) now_e) st in
   let extended := step (WsMessage (token_frame c) now_t) errored in
   let finalized := step (WsMessage finalize_frame now_d) extended in
   messages errored
   = messages st ++ [bot_turn now_e (shown_error m) false]
   /\ messages extended
      = messages st ++ [bot_turn now_e (shown_error m ++ c) false]
   /\ messages finalized
      = messages st ++ [bot_turn now_e (shown_error m ++ c) true])
  /\ messages
       (run [ WsMessage (error_frame (JString m)) now_e;
              WsMessage (token_frame c) now_t;
              WsMessage finalize_frame now_d ] st')
     = messages
         (run [ WsMessage (token_frame (shown_error m)) now_e;
                WsMessage (token_frame c) now_t;
                WsMessage finalize_frame now_d ] st').
Proof.
  intros Hlast.
  assert (Herr : forall s,
    messages (step (WsMessage (error_frame (JString m)) now_e) s)
    = messages s ++ [bot_turn now_e (shown_error m) false]).
  { intros s. simpl. unfold append_error. now rewrite error_text_string. }
  assert (Hrun : forall s s1,
    messages s1 = messages s ++ [bot_turn now_e (shown_error m) false] ->
    messages (step (WsMessage (token_frame c) now_t) s1)
    = messages s ++ [bot_turn now_e (shown_error m ++ c) false]
    /\ messages (step (WsMessage finalize_frame now_d)
                   (step (WsMessage (token_frame c) now_t) s1))
       = messages s ++ [bot_turn now_e (shown_error m ++ c) true]).
  { intros s s1 Hs1.
    assert (Ht : messages (step (WsMessage (token_frame c) now_t) s1)
                 = messages s ++ [bot_turn now_e (shown_error m ++ c) false]).
    { rewrite step_token, Hs1, append_token_open by reflexivity.
      simpl. now rewrite js_add_strings. }
    split; [exact Ht|].
    change (messages (step (WsMessage finalize_frame now_d) ?x))
      with (finalize_last (messages x)).
    now rewrite Ht, finalize_last_bot by reflexivity. }
  split.
  - cbv zeta. split; [apply Herr|]. apply (Hrun st), Herr.
  - cbn [run].
    destruct (Hrun st' _ (Herr st')) as [_ ->].
    assert (Htok :
      messages (step (WsMessage (token_frame (shown_error m)) now_e) st')
      = messages st' ++ [bot_turn now_e (shown_error m) false]).
    { rewrite step_token. now apply append_token_new. }
    now destruct (Hrun st' _ Htok) as [_ ->].
Qed.

Lemma C10_error_turn_not_protected_witness :
  let st := run [WsOpen; Change (lit "x"); Submit one one (Some OPEN)]
                initial_state in
  (let errored := step (WsMessage (error_frame (JString (lit "oops"))) one) st in
   let extended := step (WsMessage (token_frame (lit "!")) pos_zero) errored in
   let finalized := step (WsMessage finalize_frame pos_zero) extended in
   messages errored
   = messages st ++ [bot_turn one (shown_error (lit "oops")) false]
   /\ messages extended
      = messages st ++ [bot_turn one (shown_error (lit "oops") ++ lit "!") false]
   /\ messages finalized
      = messages st ++ [bot_turn one (shown_error (lit "oops") ++ lit "!") true])
  /\ messages
       (run [ WsMessage (error_frame (JString (lit "oops"))) one;
              WsMessage (token_frame (lit "!")) pos_zero;
              WsMessage finalize_frame pos_zero ] st)
     = messages
         (run [ WsMessage (token_frame (shown_error (lit "oops"))) one;
                WsMessage (token_frame (lit "!")) pos_zero;
                WsMessage finalize_frame pos_zero ] st).
Proof.
  apply (@C10_error_turn_not_protected (lit "oops") (lit "!") one pos_zero pos_zero
           (run [WsOpen; Change (lit "x"); Submit one one (Some OPEN)]
                initial_state)
           (run [WsOpen; Change (lit "x"); Submit one one (Some OPEN)]
                initial_state)).
  reflexivity.
Defined.

(** ** Open assistant turns *)

Lemma all_closed (prev : list Message) :
  open_only_last prev = true ->
  last_is_open prev = false ->
  forallb (fun m => negb (is_open_bot m)) prev = true.
Proof.
  unfold open_only_last, last_is_open. intros Hinit Hlast.
  destruct (lastOf prev) as [last|] eqn:E.
  - rewrite (lastOf_split _ E), forallb_app, Hinit. simpl. now rewrite Hlast.
  - now rewrite (lastOf_None _ E).
Qed.

Lemma open_only_last_snoc (prev : list Message) (m : Message) :
  open_only_last (prev ++ [m]) = forallb (fun m => negb (is_open_bot m)) prev.
Proof. unfold open_only_last. now rewrite removelast_last. Qed.

Lemma open_only_last_replace (prev : list Message) (m : Message) :
  open_only_last prev = true -> open_only_last (removelast prev ++ [m]) = true.
Proof. intros H. now rewrite open_only_last_snoc. Qed.

Lemma open_turns_bound (prev : list Message) :
  open_only_last prev = true -> open_turns prev <= 1.
Proof.
  unfold open_only_last, open_turns. intros H.
  destruct (lastOf prev) as [last|] eqn:E.
  - rewrite (lastOf_split _ E), filter_app, length_app.
    assert (Hz : filter is_open_bot (removelast prev) = []).
    { revert H. generalize (removelast prev) as l.
      induction l as [|x l IH]; simpl; [reflexivity|].
      destruct (is_open_bot x); simpl; [discriminate|exact IH]. }
    rewrite Hz. simpl. destruct (is_open_bot last); simpl; lia.
  - rewrite (lastOf_None _ E). simpl. lia.
Qed.

Lemma append_token_keeps (content : JsVal) (now : Id) (prev : list Message) :
  open_only_last prev = true ->
  open_only_last (append_token content now prev) = true.
Proof.
  intros Inv. destruct (last_is_open prev) eqn:L.
  - unfold last_is_open in L. destruct (lastOf prev) as [last|] eqn:E;
      [|discriminate].
    rewrite (lastOf_split _ E), append_token_open by exact L.
    now rewrite open_only_last_snoc.
  - rewrite append_token_new by exact L.
    rewrite open_only_last_snoc. now apply all_closed.
Qed.

Lemma finalize_last_keeps (prev : list Message) :
  open_only_last prev = true -> open_only_last (finalize_last prev) = true.
Proof.
  intros Inv. unfold finalize_last.
  destruct (lastOf prev) as [last|]; [|exact Inv].
  destruct (str_eqb (sender last) (lit "bot")); [|exact Inv].
  now apply open_only_last_replace.
Qed.

(** What a frame can do to the messages. *)
Lemma onmessage_messages (frame : ParseOutcome) (now : Id) (st : State) :
  let after := messages (step (WsMessage frame now) st) in
  after = messages st
  \/ (exists content, after = append_token content now (messages st))
  \/ after = finalize_last (messages st)
  \/ (appends_always (WsMessage frame now) = true
      /\ exists content, after = append_error content now (messages st)).
Proof.
  cbv zeta. unfold step, ws_onmessage, onmessage_try, is_finalize_delimiter.
  destruct frame as [data|]; [destruct data|]; simpl; auto.
  repeat match goal with
         | |- context [if ?c then _ else _] => destruct c; simpl
         end; eauto 7.
Qed.

Lemma open_only_last_step (ev : Event) (st : State) :
  open_only_last (messages st) = true ->
  negb (appends_always ev) || negb (last_is_open (messages st)) = true ->
  open_only_last (messages (step ev st)) = true.
Proof.
  intros Inv Hord.
  destruct ev as [| | |frame now|value|now_user now_bot socket];
    try exact Inv.
  - destruct (onmessage_messages frame now st)
      as [-> | [[c ->] | [-> | [Ha [c ->]]]]].
    + exact Inv.
    + now apply append_token_keeps.
    + now apply finalize_last_keeps.
    + rewrite Ha in Hord. simpl in Hord. apply negb_true_iff in Hord.
      unfold append_error. rewrite open_only_last_snoc. now apply all_closed.
  - simpl in Hord. apply negb_true_iff in Hord.
    pose proof (all_closed _ Inv Hord) as Hall.
    simpl. unfold handleSubmit.
    destruct (str_not (trim (input st)) || negb (isConnected st));
      [exact Inv|].
    destruct (is_OPEN socket); simpl.
    + now rewrite open_only_last_snoc.
    + rewrite open_only_last_snoc, forallb_app, Hall. reflexivity.
Qed.

(** C1, as the spec states it, fails: an error frame received while a bot
    message is still open appends a second open bot message. *)
Lemma C1_error_opens_second_turn :
  messages
    (run [ WsOpen;
           WsMessage (token_frame (lit "a")) pos_zero;
           WsMessage (error_frame (JString (lit "oops"))) one ]
         initial_state)
  = [ bot_turn pos_zero (lit "a") false; bot_turn one (lit "oops") false ]
  /\ open_turns
       (messages
          (run [ WsOpen;
                 WsMessage (token_frame (lit "a")) pos_zero;
                 WsMessage (error_frame (JString (lit "oops"))) one ]
               initial_state))
     = 2.
Proof. split; reflexivity. Qed.

Lemma token_on_open_turn_appends_none (c : JsString) (now : Id) (st : State) :
  last_is_open (messages st) = true ->
  List.length (messages (step (WsMessage (token_frame c) now) st))
  = List.length (messages st).
Proof.
  unfold last_is_open. intros L.
  destruct (lastOf (messages st)) as [last|] eqn:E; [|discriminate].
  rewrite step_token, (lastOf_split _ E), append_token_open by exact L.
  now rewrite !length_app.
Qed.

(** C1, amended: in a run where every submit and every error frame is
    processed while the last message is not an open bot message, started on a
    transcript in which no message but the last is an open bot message, every
    state has at most one open bot message, and it is the last message; and a
    token appends no message when the last message is an open bot message.
    (An error frame and a submit append whatever the transcript holds.) *)
Theorem C1_at_most_one_open_in_orderly_runs (evs : list Event) (st : State) :
  open_only_last (messages st) = true ->
  orderly evs st = true ->
  Forall (fun s => open_turns (messages s) <= 1
                   /\ open_only_last (messages s) = true)
         (trace evs st)
  /\ (forall c now s,
        last_is_open (messages s) = true ->
        List.length (messages (step (WsMessage (token_frame c) now) s))
        = List.length (messages s)).
Proof.
  intros Inv Hord. split; [|intros c now s; apply token_on_open_turn_appends_none].
  revert st Inv Hord. induction evs as [|ev evs IH]; intros st Inv Hord; simpl.
  - constructor; [|constructor]. split; [now apply open_turns_bound|exact Inv].
  - simpl in Hord. apply andb_prop in Hord as [Hev Hrest].
    constructor; [split; [now apply open_turns_bound|exact Inv]|].
    apply IH; [|exact Hrest]. now apply open_only_last_step.
Qed.

Lemma C1_at_most_one_open_in_orderly_runs_witness :
  Forall (fun s => open_turns (messages s) <= 1
                   /\ open_only_last (messages s) = true)
         (trace two_queries initial_state)
  /\ (forall c now s,
        last_is_open (messages s) = true ->
        List.length (messages (step (WsMessage (token_frame c) now) s))
        = List.length (messages s)).
Proof.
  apply (@C1_at_most_one_open_in_orderly_runs two_queries initial_state).
  - reflexivity.
  - reflexivity.
Defined.

(** ** Frames of every shape *)

Lemma strict_eq_str_false (v : JsVal) (s : JsString) :
  v <> JString s -> strict_eq_str v s = false.
Proof.
  intros H. destruct (strict_eq_str v s) eqn:E; [|reflexivity].
  apply strict_eq_str_true in E. contradiction.
Qed.




(** X2: the [catch] block of [ws.onmessage] runs in two cases only: the
    frame is not JSON (a SyntaxError), or it is the JSON value [null], whose
    [type] cannot be read (a TypeError).  In both the callback only clears
    [loading]. *)
Theorem onmessage_catch_cases
  (frame : ParseOutcome) (now : Id) (st : State) (e : JsError) :
  (onmessage_try frame now st = Throw e
   <-> (frame = Malformed /\ e = SyntaxError)
       \/ ((frame = Parsed JNull \/ frame = Parsed JUndefined) /\ e = TypeError))
  /\ (ws_onmessage (Parsed JNull) now st = Normal (setLoading false st)
      /\ ws_onmessage Malformed now st = Normal (setLoading false st)).
Proof.
  split; [|split; reflexivity].
  split.
  - unfold onmessage_try, is_finalize_delimiter.
    destruct frame as [data|]; [destruct data|]; simpl;
      repeat match goal with
             | |- context [if ?c then _ else _] => destruct c; simpl
             end;
      intros H; try discriminate H; injection H as <-; auto.
  - intros [[-> ->] | [[-> | ->] ->]]; reflexivity.
Qed.

(** X3: a frame whose [type] is none of ["token"], ["delimiter"] and
    ["error"] (a ["typing"] frame, an unknown type, an object without
    [type], a JSON number, string, boolean or array) changes no state cell:
    in particular it does not clear [loading]. *)
Theorem unrecognized_frame_ignored
  (data type : JsVal) (now : Id) (st : State) :
  get data (lit "type") = Normal type ->
  type <> JString (lit "token") ->
  type <> JString (lit "delimiter") ->
  type <> JString (lit "error") ->
  ws_onmessage (Parsed data) now st = Normal st
  /\ step (WsMessage (Parsed data) now) st = st.
Proof.
  intros Hty Ht Hd He.
  assert (E : ws_onmessage (Parsed data) now st = Normal st).
  { unfold ws_onmessage, onmessage_try, is_finalize_delimiter.
    simpl JSON_parse. simpl bind at 1. rewrite Hty. simpl.
    rewrite (strict_eq_str_false Ht), (strict_eq_str_false Hd),
      (strict_eq_str_false He). simpl.
    now destruct (strict_eq_str type (lit "typing")). }
  split; [exact E|]. simpl. now rewrite E.
Qed.

Lemma unrecognized_frame_ignored_witness :
  let st := {| input := []; messages := []; loading := true; isConnected := true |} in
  (ws_onmessage (Parsed (JObject [(lit "type", JString (lit "typing"))])) one st
   = Normal st
   /\ step (WsMessage (Parsed (JObject [(lit "type", JString (lit "typing"))])) one) st
      = st)
  /\ (ws_onmessage (Parsed (JArray [JString (lit "token")])) one st = Normal st
      /\ step (WsMessage (Parsed (JArray [JString (lit "token")])) one) st = st).
Proof.
  split.
  - apply (@unrecognized_frame_ignored
             (JObject [(lit "type", JString (lit "typing"))])
             (JString (lit "typing"))); [reflexivity | discriminate ..].
  - apply (@unrecognized_frame_ignored
             (JArray [JString (lit "token")]) JUndefined);
      [reflexivity | discriminate ..].
Defined.

(** ** What no event undoes *)

(** What an event can do to the messages: extend an open last message,
    finalize the last message, or append. *)
Lemma step_messages (ev : Event) (st : State) :
  let after := messages (step ev st) in
  (exists content now, after = append_token content now (messages st))
  \/ after = finalize_last (messages st)
  \/ (exists added, after = messages st ++ added).
Proof.
  cbv zeta.
  destruct ev as [| | |frame now|value|now_user now_bot socket];
    try (right; right; exists []; simpl; now rewrite app_nil_r).
  - destruct (onmessage_messages frame now st)
      as [-> | [[c ->] | [-> | [_ [c ->]]]]].
    + right; right; exists []. now rewrite app_nil_r.
    + left; eauto.
    + right; left; reflexivity.
    + right; right. unfold append_error. eauto.
  - right; right. simpl. unfold handleSubmit.
    destruct (str_not (trim (input st)) || negb (isConnected st)).
    + exists []. simpl. now rewrite app_nil_r.
    + destruct (is_OPEN socket); simpl.
      * eauto.
      * rewrite <- app_assoc. eauto.
Qed.

Lemma identity_append_token (content : JsVal) (now : Id) (prev : list Message) :
  exists extra,
    List.map identity (append_token content now prev)
    = List.map identity prev ++ extra.
Proof.
  destruct (last_is_open prev) eqn:L.
  - unfold last_is_open in L.
    destruct (lastOf prev) as [last|] eqn:E; [|discriminate].
    exists []. rewrite app_nil_r.
    rewrite (lastOf_split _ E) at 1. rewrite append_token_open by exact L.
    rewrite (lastOf_split _ E) at 2. now rewrite !map_app.
  - rewrite append_token_new by exact L. rewrite map_app. eauto.
Qed.

Lemma identity_finalize_last (prev : list Message) :
  List.map identity (finalize_last prev) = List.map identity prev.
Proof.
  unfold finalize_last. destruct (lastOf prev) as [last|] eqn:E; [|reflexivity].
  destruct (str_eqb (sender last) (lit "bot")); [|reflexivity].
  rewrite (lastOf_split _ E) at 2. now rewrite !map_app.
Qed.

Lemma identity_step (ev : Event) (st : State) :
  exists extra,
    List.map identity (messages (step ev st))
    = List.map identity (messages st) ++ extra.
Proof.
  destruct (step_messages ev st) as [(c & now & ->) | [-> | [added ->]]].
  - apply identity_append_token.
  - exists []. now rewrite identity_finalize_last, app_nil_r.
  - rewrite map_app. eauto.
Qed.

(** X4: the transcript is append-only as far as identities go: after any
    run, the [id]s and [sender]s of the messages that were there come first,
    in the same order, so no message is removed, reordered or relabelled, and
    the transcript never gets shorter (the welcome screen, shown for an empty
    transcript, does not come back). *)
Theorem transcript_identities_append_only (evs : list Event) (st : State) :
  (exists extra,
      List.map identity (messages (run evs st))
      = List.map identity (messages st) ++ extra)
  /\ List.length (messages st) <= List.length (messages (run evs st)).
Proof.
  assert (H : exists extra,
             List.map identity (messages (run evs st))
             = List.map identity (messages st) ++ extra).
  { revert st. induction evs as [|ev evs IH]; intros st; simpl.
    - exists []. now rewrite app_nil_r.
    - destruct (IH (step ev st)) as [e2 ->].
      destruct (identity_step ev st) as [e1 ->].
      rewrite <- app_assoc. eauto. }
  split; [exact H|].
  destruct H as [extra H].
  apply (f_equal (@List.length _)) in H.
  rewrite length_app, !length_map in H. lia.
Qed.

Lemma nth_error_snoc_cases (l : list Message) (x m : Message) (i : nat) :
  nth_error (l ++ [x]) i = Some m ->
  (i < List.length l /\ nth_error l i = Some m) \/ (i = List.length l /\ m = x).
Proof.
  intros H. destruct (Nat.lt_ge_cases i (List.length l)) as [Hlt|Hge].
  - left. split; [exact Hlt|]. now rewrite nth_error_app1 in H.
  - right. rewrite nth_error_app2 in H by exact Hge.
    destruct (i - List.length l) as [|k] eqn:D.
    + simpl in H. injection H as <-. split; [lia|reflexivity].
    + simpl in H. destruct k; discriminate.
Qed.

Lemma settled_app (prev added : list Message) (i : nat) (m : Message) :
  settled prev i m -> settled (prev ++ added) i m.
Proof.
  intros [Hn Hs].
  assert (Hi : i < List.length prev) by (apply nth_error_Some; congruence).
  split.
  - now rewrite nth_error_app1.
  - rewrite length_app. destruct Hs; [left; lia|right; assumption].
Qed.

(** Replacing the last message keeps a settled message, provided the last
    message, if it is the settled one, is replaced by itself. *)
Lemma settled_replace_last (prev : list Message) (last last' : Message)
  (i : nat) (m : Message) :
  lastOf prev = Some last ->
  (is_open_bot last = false -> last' = last) ->
  settled prev i m -> settled (removelast prev ++ [last']) i m.
Proof.
  intros E Hsame [Hn Hs].
  assert (Hlen : List.length prev = S (List.length (removelast prev))).
  { rewrite (lastOf_split _ E) at 1. rewrite length_app. simpl. lia. }
  rewrite (lastOf_split _ E) in Hn.
  destruct (nth_error_snoc_cases _ _ _ Hn) as [[Hlt Hi] | [-> ->]].
  - split.
    + now rewrite nth_error_app1.
    + rewrite length_app. simpl. destruct Hs; [left; lia|right; assumption].
  - destruct Hs as [Hs|Hs]; [lia|].
    rewrite (Hsame Hs). split.
    + rewrite nth_error_app2 by lia. now rewrite Nat.sub_diag.
    + right. exact Hs.
Qed.

Lemma settled_step (ev : Event) (st : State) (i : nat) (m : Message) :
  settled (messages st) i m -> settled (messages (step ev st)) i m.
Proof.
  intros H.
  destruct (step_messages ev st) as [(c & now & ->) | [-> | [added ->]]].
  - destruct (last_is_open (messages st)) eqn:L.
    + unfold last_is_open in L.
      destruct (lastOf (messages st)) as [last|] eqn:E; [|discriminate].
      rewrite (lastOf_split _ E) at 1. rewrite append_token_open by exact L.
      apply settled_replace_last with (last := last); [exact E| |exact H].
      congruence.
    + rewrite append_token_new by exact L. now apply settled_app.
  - unfold finalize_last.
    destruct (lastOf (messages st)) as [last|] eqn:E; [|exact H].
    destruct (str_eqb (sender last) (lit "bot")) eqn:B; [|exact H].
    apply settled_replace_last with (last := last); [exact E| |exact H].
    unfold is_open_bot, not_hasAnswer. rewrite B. simpl.
    destruct last as [i0 s0 t0 [[|]|]]; simpl; intros Hc;
      try discriminate Hc; reflexivity.
  - now apply settled_app.
Qed.

Lemma settled_step_run (evs : list Event) (st : State) (i : nat) (m : Message) :
  settled (messages st) i m ->
  settled (messages (run evs st)) i m
  /\ nth_error (messages (run evs st)) i = Some m.
Proof.
  intros H.
  assert (G : settled (messages (run evs st)) i m).
  { revert st H. induction evs as [|ev evs IH]; intros st H; simpl.
    - exact H.
    - apply IH. now apply settled_step. }
  split; [exact G|exact (proj1 G)].
Qed.

(** X5: a message that is not the last one, or that is not an open bot
    message (a user message, a finalized bot message), stays where it is and
    as it is through every run: only an open bot message in last position
    can still change.  An open bot message that is no longer last is never
    finalized. *)
Theorem settled_messages_never_change
  (evs : list Event) (st : State) (i : nat) (m : Message) :
  settled (messages st) i m ->
  settled (messages (run evs st)) i m
  /\ nth_error (messages (run evs st)) i = Some m.
Proof.
  intros H. pose proof (@settled_step_run evs _ _ _ H) as [G Hn].
  destruct G as [_ Hs]. split; [split; [exact Hn|exact Hs]|exact Hn].
Qed.

Lemma settled_messages_never_change_witness :
  let st := run [ WsOpen;
                  WsMessage (token_frame (lit "a")) pos_zero;
                  WsMessage (error_frame (JString (lit "oops"))) one ]
                initial_state in
  let later := [ WsMessage (token_frame (lit "b")) one;
                 WsMessage finalize_frame one;
                 Change (lit "x"); Submit one one (Some OPEN);
                 WsMessage finalize_frame one ] in
  settled (messages (run later st)) 0 (bot_turn pos_zero (lit "a") false)
  /\ nth_error (messages (run later st)) 0
     = Some (bot_turn pos_zero (lit "a") false).
Proof.
  apply (@settled_messages_never_change
           [ WsMessage (token_frame (lit "b")) one;
             WsMessage finalize_frame one;
             Change (lit "x"); Submit one one (Some OPEN);
             WsMessage finalize_frame one ]
           (run [ WsOpen;
                  WsMessage (token_frame (lit "a")) pos_zero;
                  WsMessage (error_frame (JString (lit "oops"))) one ]
                initial_state)
           0 (bot_turn pos_zero (lit "a") false)).
  split; [reflexivity|]. left. simpl. lia.
Defined.

(** ** What is sent, and when [loading] is set *)

Lemma submit_wire (now_user now_bot : Id) (socket : option ReadyState) (st : State) :
  snd (handleSubmit now_user now_bot socket st)
  = if negb (str_not (trim (input st))) && isConnected st && is_OPEN socket
    then [query_frame (input st)] else [].
Proof.
  unfold handleSubmit.
  destruct (str_not (trim (input st))); simpl; [reflexivity|].
  destruct (isConnected st); simpl; [|reflexivity].
  now destruct (is_OPEN socket).
Qed.

Lemma submit_sent_cases (now_user now_bot : Id) (socket : option ReadyState)
  (st : State) (frame : JsVal) :
  In frame (snd (handleSubmit now_user now_bot socket st)) ->
  frame = query_frame (input st)
  /\ str_not (trim (input st)) = false
  /\ isConnected st = true
  /\ socket = Some OPEN.
Proof.
  rewrite submit_wire.
  destruct (str_not (trim (input st))); simpl; [contradiction|].
  destruct (isConnected st); simpl; [|contradiction].
  destruct socket as [[]|]; simpl; try contradiction.
  intros [<-|[]]. repeat split.
Qed.

(** X6: every frame a run sends is [{ message: q }] for a query [q] that is
    not blank, and the transcript at the end of the run still holds the user
    message with that very text: nothing reaches the server that the
    transcript does not show. *)
Theorem sent_frames_are_in_transcript
  (evs : list Event) (st : State) (frame : JsVal) :
  In frame (sent evs st) ->
  exists query,
    frame = query_frame query
    /\ str_not (trim query) = false
    /\ exists m,
         In m (messages (run evs st))
         /\ sender m = lit "user"
         /\ text m = TString (plain query)
         /\ hasAnswer m = None.
Proof.
  revert st. induction evs as [|ev evs IH]; intros st Hin; [contradiction|].
  simpl in Hin. apply in_app_or in Hin as [Hnow|Hlater];
    [|exact (IH _ Hlater)].
  destruct ev as [| | |f n|v|now_user now_bot socket]; try contradiction.
  simpl in Hnow.
  destruct (submit_sent_cases _ _ _ _ _ Hnow) as (-> & Hq & Hc & ->).
  exists (input st). split; [reflexivity|]. split; [exact Hq|].
  exists (user_turn now_user (input st)).
  split; [|repeat split].
  simpl run.
  assert (S0 : settled (messages (step (Submit now_user now_bot (Some OPEN)) st))
                 (List.length (messages st)) (user_turn now_user (input st))).
  { simpl step. rewrite submit_appends_user_turn by assumption. simpl.
    split; [|right; reflexivity].
    rewrite nth_error_app2 by lia. now rewrite Nat.sub_diag. }
  destruct (@settled_step_run evs _ _ _ S0) as [_ Hn].
  exact (nth_error_In _ _ Hn).
Qed.

Lemma sent_frames_are_in_transcript_witness :
  exists query,
    query_frame (lit "hi") = query_frame query
    /\ str_not (trim query) = false
    /\ exists m,
         In m (messages (run two_queries initial_state))
         /\ sender m = lit "user"
         /\ text m = TString (plain query)
         /\ hasAnswer m = None.
Proof.
  apply (@sent_frames_are_in_transcript two_queries initial_state
           (query_frame (lit "hi"))).
  simpl. left. reflexivity.
Defined.

(** X7: [handleSubmit] does not look at [loading]: while a reply is still
    awaited, only the disabled button stands in the way of a second query.
    Called in such a state, with a non-blank input on an open connection, it
    appends a second user message and sends a second frame. *)
Theorem submit_while_loading_is_accepted
  (now_user now_bot : Id) (st : State) :
  loading st = true ->
  str_not (trim (input st)) = false ->
  isConnected st = true ->
  button_disabled st = true
  /\ handleSubmit now_user now_bot (Some OPEN) st
     = ({| input := [];
           messages := messages st ++ [user_turn now_user (input st)];
           loading := true;
           isConnected := true |},
        [query_frame (input st)]).
Proof.
  intros Hl Hq Hc. split.
  - unfold button_disabled. now rewrite Hl.
  - now apply submit_appends_user_turn.
Qed.

Lemma submit_while_loading_is_accepted_witness :
  let st := run [ WsOpen; Change (lit "hi"); Submit one one (Some OPEN);
                  Change (lit "again") ] initial_state in
  button_disabled st = true
  /\ handleSubmit pos_zero pos_zero (Some OPEN) st
     = ({| input := [];
           messages := messages st ++ [user_turn pos_zero (input st)];
           loading := true;
           isConnected := true |},
        [query_frame (input st)]).
Proof.
  apply (@submit_while_loading_is_accepted pos_zero pos_zero
           (run [ WsOpen; Change (lit "hi"); Submit one one (Some OPEN);
                  Change (lit "again") ] initial_state));
    reflexivity.
Defined.

(** X8: [loading] goes from false to true in one way only: a submit of a
    non-blank input, with [isConnected] true and the socket OPEN, that sends
    the query in the same step.  No frame, no socket event and no edit of the
    input sets it. *)
Theorem loading_set_only_with_a_sent_query (ev : Event) (st : State) :
  loading st = false ->
  loading (step ev st) = true ->
  (exists now_user now_bot, ev = Submit now_user now_bot (Some OPEN))
  /\ str_not (trim (input st)) = false
  /\ isConnected st = true
  /\ emitted ev st = [query_frame (input st)].
Proof.
  intros Hoff Hon.
  destruct ev as [| | |frame now|value|now_user now_bot socket];
    simpl in Hon; try congruence.
  - destruct (onmessage_completes frame now st) as (st' & E & _ & _ & Hl).
    rewrite E in Hon. simpl in Hon. destruct Hl; congruence.
  - simpl emitted. rewrite submit_wire.
    unfold handleSubmit in Hon.
    destruct (str_not (trim (input st))); simpl in Hon; [congruence|].
    destruct (isConnected st); simpl in Hon; [|congruence].
    destruct socket as [[]|]; simpl in Hon; try discriminate Hon.
    repeat split. eauto.
Qed.

Lemma loading_set_only_with_a_sent_query_witness :
  let st := run [WsOpen; Change (lit "hi")] initial_state in
  (exists now_user now_bot,
      Submit one pos_zero (Some OPEN) = Submit now_user now_bot (Some OPEN))
  /\ str_not (trim (input st)) = false
  /\ isConnected st = true
  /\ emitted (Submit one pos_zero (Some OPEN)) st = [query_frame (input st)].
Proof.
  apply (@loading_set_only_with_a_sent_query (Submit one pos_zero (Some OPEN))
           (run [WsOpen; Change (lit "hi")] initial_state));
    reflexivity.
Defined.

Lemma submit_keeps_isConnected
  (now_user now_bot : Id) (socket : option ReadyState) (st : State) :
  isConnected (fst (handleSubmit now_user now_bot socket st)) = isConnected st.
Proof.
  unfold handleSubmit.
  destruct (str_not (trim (input st)) || negb (isConnected st)); [reflexivity|].
  now destruct (is_OPEN socket).
Qed.

(** X9: [isConnected] is decided by the socket's own events alone: after
    any run it is what the last of the [open], [close] and [error] events of
    the run made it (or what it was, if the run has none); frames, submits
    and edits never change it. *)
Theorem isConnected_follows_socket_events (evs : list Event) (st : State) :
  isConnected (run evs st) = connection_after evs (isConnected st).
Proof.
  revert st. induction evs as [|ev evs IH]; intros st; [reflexivity|].
  simpl run. rewrite IH.
  destruct ev as [| | |frame now|value|now_user now_bot socket]; simpl;
    try reflexivity.
  - destruct (onmessage_completes frame now st) as (st' & E & _ & Hc & _).
    rewrite E. simpl. now rewrite Hc.
  - now rewrite submit_keeps_isConnected.
Qed.

(** ** The panel *)




Lemma idle_when_disconnected_run (evs : list Event) (st : State) :
  idle_when_disconnected st -> idle_when_disconnected (run evs st).
Proof.
  revert st. induction evs as [|ev evs IH]; intros st Inv; simpl; [exact Inv|].
  apply IH. now apply idle_when_disconnected_step.
Qed.

(** X11: in every state the mounted component reaches, the loading
    indicator is shown only while the status banner says Connected, the
    submit button is disabled, and the last message is a user message. *)
Theorem indicator_only_while_connected
  (evs : list Event) (bubbles : list Message) :
  render_panel (run evs initial_state) = Conversation bubbles true ->
  isConnected (run evs initial_state) = true
  /\ button_disabled (run evs initial_state) = true
  /\ exists last,
       lastOf (messages (run evs initial_state)) = Some last
       /\ sender last = lit "user".
Proof.
  pose proof (@idle_when_disconnected_run evs initial_state
                (fun _ => eq_refl)) as Inv.
  unfold idle_when_disconnected in Inv.
  generalize dependent (run evs initial_state). intros st Inv.
  unfold render_panel, button_disabled.
  destruct (Nat.eqb (List.length (messages st)) 0); [discriminate|].
  intros H. injection H as _ H. simpl in H.
  apply andb_prop in H as [Hl Hu]. rewrite Hl. simpl.
  split; [|split; [reflexivity|]].
  - destruct (isConnected st); [reflexivity|]. rewrite Inv in Hl; auto.
  - destruct (lastOf (messages st)) as [last|]; [|discriminate].
    exists last. split; [reflexivity|]. now apply str_eqb_eq.
Qed.

Lemma indicator_only_while_connected_witness :
  let st := run [WsOpen; Change (lit "hi"); Submit one one (Some OPEN)]
                initial_state in
  isConnected st = true
  /\ button_disabled st = true
  /\ exists last, lastOf (messages st) = Some last /\ sender last = lit "user".
Proof.
  apply (@indicator_only_while_connected
           [WsOpen; Change (lit "hi"); Submit one one (Some OPEN)]
           [user_turn one (lit "hi")]).
  reflexivity.
Defined.

(** ** The socket's life cycle *)

(** X12: the effect constructs a socket exactly when the ref is empty, and
    fills the ref; run again without a cleanup in between, it constructs
    nothing, whatever [readyState] the held socket has reached by then. *)
Theorem effect_mount_keeps_one_socket (m : Mounted) (reached : ReadyState) :
  let m1 := fst (effect_mount m) in
  socketRef m1 <> None
  /\ cells m1 = cells m
  /\ (snd (effect_mount m) = true <-> socketRef m = None)
  /\ effect_mount m1 = (m1, false)
  /\ effect_mount {| cells := cells m1; socketRef := Some reached |}
     = ({| cells := cells m1; socketRef := Some reached |}, false).
Proof.
  unfold effect_mount. destruct m as [c [rs|]]; simpl;
    repeat split; try discriminate; intros H; discriminate H.
Qed.

(** X13: the cleanup empties the ref and sets [isConnected] to false but
    leaves [loading] and the messages as they were; it calls [close()]
    exactly when the socket is OPEN or CONNECTING.  After it, a second
    cleanup closes nothing and changes nothing, a submit does nothing
    whatever the input is, and the effect constructs a new socket. *)
Theorem effect_cleanup_tears_down (m : Mounted) (now_user now_bot : Id) :
  let m1 := fst (effect_cleanup m) in
  socketRef m1 = None
  /\ isConnected (cells m1) = false
  /\ loading (cells m1) = loading (cells m)
  /\ messages (cells m1) = messages (cells m)
  /\ (snd (effect_cleanup m) = true
      <-> socketRef m = Some OPEN \/ socketRef m = Some CONNECTING)
  /\ effect_cleanup m1 = (m1, false)
  /\ submit_mounted now_user now_bot m1 = (cells m1, [])
  /\ effect_mount m1
     = ({| cells := cells m1; socketRef := Some CONNECTING |}, true).
Proof.
  cbv zeta. repeat split.
  - destruct m as [c [[]|]]; simpl; auto; discriminate.
  - destruct m as [c [[]|]]; simpl; intros [H|H]; try discriminate H;
      reflexivity.
  - unfold submit_mounted, handleSubmit. simpl.
    now rewrite orb_true_r.
Qed.

(** ** Counting open bot messages *)



(** ** The request-response chat component *)

Lemma chatbot_get_after_null (data : JsVal) (k : JsString) :
  data <> JNull -> data <> JUndefined ->
  exists v, get data k = Normal v.
Proof.
  destruct data; simpl; intros H1 H2; try contradiction; eauto.
Qed.


(** X15: whatever the request came to (the network failed, the body was
    not JSON, the body was any JSON value, whatever the HTTP status), the
    rest of [handleSubmit] completes normally, appends exactly one bot
    message and leaves [loading] false, so the component never stays in the
    sending state. *)
Theorem chatbot_resume_always_replies (r : Chatbot.Response) (st : Chatbot.State) :
  exists reply,
    Chatbot.handleSubmit_resume r st
    = Normal {| Chatbot.input := Chatbot.input st;
                Chatbot.messages := Chatbot.messages st ++ [reply];
                Chatbot.loading := false |}
    /\ Chatbot.sender reply = lit "bot"
    /\ Chatbot.hasAnswer reply <> None.
Proof.
  unfold Chatbot.handleSubmit_resume, Chatbot.resume_try, Chatbot.resume_catch.
  destruct r as [|[data|]]; simpl;
    try (eexists; split; [reflexivity|split; [reflexivity|discriminate]]).
  destruct data; simpl;
    eexists; (split; [reflexivity|split; [reflexivity|discriminate]]).
Qed.

(** X16: the apology message is what a failed request gives: [fetch]
    rejected, the body was not JSON, or the body was [null].  Any other body
    is shown as a reply, whatever the HTTP status: the bot message takes the
    body's [answer] and [has_answer] properties as they are, [undefined]
    when the body has none (an error body of the server, a number, a
    string). *)
Theorem chatbot_reply_cases (st : Chatbot.State) (data : JsVal) :
  data <> JNull ->
  data <> JUndefined ->
  (Chatbot.handleSubmit_resume Chatbot.NetworkError st
   = Normal {| Chatbot.input := Chatbot.input st;
               Chatbot.messages := Chatbot.messages st ++ [Chatbot.apology];
               Chatbot.loading := false |}
   /\ Chatbot.handleSubmit_resume (Chatbot.Body Malformed) st
      = Chatbot.handleSubmit_resume Chatbot.NetworkError st
   /\ Chatbot.handleSubmit_resume (Chatbot.Body (Parsed JNull)) st
      = Chatbot.handleSubmit_resume Chatbot.NetworkError st)
  /\ exists answer has_answer,
       get data (lit "answer") = Normal answer
       /\ get data (lit "has_answer") = Normal has_answer
       /\ Chatbot.handleSubmit_resume (Chatbot.Body (Parsed data)) st
          = Normal {| Chatbot.input := Chatbot.input st;
                      Chatbot.messages :=
                        Chatbot.messages st
                        ++ [ {| Chatbot.sender := lit "bot";
                                Chatbot.text := text_of answer;
                                Chatbot.hasAnswer := Some has_answer |} ];
                      Chatbot.loading := false |}.
Proof.
  intros Hn Hu. split; [repeat split|].
  destruct (chatbot_get_after_null (lit "answer") Hn Hu) as [a Ha].
  destruct (chatbot_get_after_null (lit "has_answer") Hn Hu) as [h Hh].
  exists a, h. split; [exact Ha|split; [exact Hh|]].
  unfold Chatbot.handleSubmit_resume, Chatbot.resume_try. simpl.
  rewrite Ha. simpl. rewrite Hh. reflexivity.
Qed.

Lemma chatbot_reply_cases_witness :
  let st := {| Chatbot.input := []; Chatbot.messages := [];
               Chatbot.loading := true |} in
  let data := JObject [ (lit "detail", JString (lit "Internal Server Error")) ] in
  (Chatbot.handleSubmit_resume Chatbot.NetworkError st
   = Normal {| Chatbot.input := Chatbot.input st;
               Chatbot.messages := Chatbot.messages st ++ [Chatbot.apology];
               Chatbot.loading := false |}
   /\ Chatbot.handleSubmit_resume (Chatbot.Body Malformed) st
      = Chatbot.handleSubmit_resume Chatbot.NetworkError st
   /\ Chatbot.handleSubmit_resume (Chatbot.Body (Parsed JNull)) st
      = Chatbot.handleSubmit_resume Chatbot.NetworkError st)
  /\ exists answer has_answer,
       get data (lit "answer") = Normal answer
       /\ get data (lit "has_answer") = Normal has_answer
       /\ Chatbot.handleSubmit_resume (Chatbot.Body (Parsed data)) st
          = Normal {| Chatbot.input := Chatbot.input st;
                      Chatbot.messages :=
                        Chatbot.messages st
                        ++ [ {| Chatbot.sender := lit "bot";
                                Chatbot.text := text_of answer;
                                Chatbot.hasAnswer := Some has_answer |} ];
                      Chatbot.loading := false |}.
Proof.
  apply (@chatbot_reply_cases
           {| Chatbot.input := []; Chatbot.messages := [];
              Chatbot.loading := true |}
           (JObject [ (lit "detail", JString (lit "Internal Server Error")) ]));
    discriminate.
Defined.



(** X18: a submit of an empty or white-space-only input does nothing: no
    message, no request, [loading] as it was. *)
Theorem chatbot_blank_submit_ignored (st : Chatbot.State) :
  forallb is_white_space (Chatbot.input st) = true ->
  Chatbot.handleSubmit_start st = (st, None).
Proof.
  intros Hblank. apply trim_blank_iff in Hblank.
  unfold Chatbot.handleSubmit_start. now rewrite Hblank.
Qed.

Lemma chatbot_blank_submit_ignored_witness :
  Chatbot.handleSubmit_start
    {| Chatbot.input := [32; 32]%N; Chatbot.messages := [];
       Chatbot.loading := false |}
  = ({| Chatbot.input := [32; 32]%N; Chatbot.messages := [];
        Chatbot.loading := false |}, None).
Proof.
  apply (@chatbot_blank_submit_ignored
           {| Chatbot.input := [32; 32]%N; Chatbot.messages := [];
              Chatbot.loading := false |}).
  reflexivity.
Defined.

(** ** Tokens that are not strings *)

(** X19: the token branch joins contents with [+], which concatenates only
    when one side is a string.  Two tokens whose contents are JSON numbers,
    the first starting a new bot message, leave a message whose text is the
    sum of the two numbers, not their digits side by side; a number followed
    by a string token gives the number's text followed by the string. *)
Theorem numeric_tokens_are_summed
  (x y : Number) (c : JsString) (now1 now2 : Id) (st : State) :
  last_is_open (messages st) = false ->
  messages (run [ WsMessage (token_frame_of (JNumber x)) now1;
                  WsMessage (token_frame_of (JNumber y)) now2 ] st)
  = messages st
    ++ [ {| id := now1; sender := lit "bot";
            text := TOther (JNumber (number_add x y));
            hasAnswer := Some false |} ]
  /\ messages (run [ WsMessage (token_frame_of (JNumber x)) now1;
                     WsMessage (token_frame c) now2 ] st)
     = messages st
       ++ [ {| id := now1; sender := lit "bot";
               text := TString (NumberText x :: plain c);
               hasAnswer := Some false |} ].
Proof.
  intros L.
  assert (H1 : messages (step (WsMessage (token_frame_of (JNumber x)) now1) st)
               = messages st
                 ++ [ {| id := now1; sender := lit "bot";
                         text := TOther (JNumber x);
                         hasAnswer := Some false |} ]).
  { change (messages (step (WsMessage (token_frame_of (JNumber x)) now1) st))
      with (append_token (JNumber x) now1 (messages st)).
    now rewrite append_token_new. }
  split; cbn [run].
  - change (messages (step (WsMessage (token_frame_of (JNumber y)) now2) ?s))
      with (append_token (JNumber y) now2 (messages s)).
    rewrite H1. now rewrite append_token_open.
  - rewrite step_token, H1. now rewrite append_token_open.
Qed.

Lemma numeric_tokens_are_summed_witness :
  messages (run [ WsMessage (token_frame_of (JNumber one)) pos_zero;
                  WsMessage (token_frame_of (JNumber one)) pos_zero ]
                initial_state)
  = messages initial_state
    ++ [ {| id := pos_zero; sender := lit "bot";
            text := TOther (JNumber (number_add one one));
            hasAnswer := Some false |} ]
  /\ messages (run [ WsMessage (token_frame_of (JNumber one)) pos_zero;
                     WsMessage (token_frame (lit "a")) pos_zero ]
                   initial_state)
     = messages initial_state
       ++ [ {| id := pos_zero; sender := lit "bot";
               text := TString (NumberText one :: plain (lit "a"));
               hasAnswer := Some false |} ].
Proof.
  apply (@numeric_tokens_are_summed one one (lit "a") pos_zero pos_zero
           initial_state).
  reflexivity.
Defined.
